(** * ply.git.cmd: a command layer over git, and the Repo facade

    A shallow embedding of [ply/git/cmd.py].  The module builds argument
    vectors for eight git subcommands, runs them through [subprocess], and
    offers a [Repo] object whose methods run the same commands inside the
    repository's directory.

    The module is Python 2 code: a [str], the captured output of a child
    process included, is a string of bytes.  Python strings are [string],
    argument vectors are [list string], integers are [Z].  The process
    state the module touches (working directory, the file system as the
    child processes see and change it) is threaded explicitly through a
    state-and-exception monad.  What lies outside the
    module (the git executable and the directory tree) is a
    [Platform], over which every definition is parametric. *)

From Stdlib Require Import String Ascii List ZArith Bool Lia.
From Stdlib Require Import Decimal DecimalString DecimalPos DecimalZ.
Import ListNotations.
Open Scope string_scope.
Open Scope list_scope.

(** ** Python string primitives *)

Module Py.

(** The line feed character, Python's ['\n']. *)
Definition nl : ascii := "010"%char.

(** Truthiness of a [str]: only the empty string is false. *)
Definition truthy (s : string) : bool :=
  match s with
  | EmptyString => false
  | String _ _ => true
  end.

(** [s.split(sep)] for a one-character separator: the pieces between the
    separators, empty pieces included; the empty string gives [['']]. *)
Fixpoint split (sep : ascii) (s : string) : list string :=
  match s with
  | EmptyString => [EmptyString]
  | String c rest =>
      if Ascii.eqb c sep then EmptyString :: split sep rest
      else match split sep rest with
           | [] => [String c EmptyString]
           | piece :: pieces => String c piece :: pieces
           end
  end.

(** [str.isspace] on one byte: space, tab, line feed, vertical tab, form
    feed, carriage return. *)
Definition is_space (c : ascii) : bool :=
  let n := nat_of_ascii c in
  Nat.eqb n 32 || (Nat.leb 9 n && Nat.leb n 13).

Fixpoint lstrip (s : string) : string :=
  match s with
  | EmptyString => EmptyString
  | String c rest => if is_space c then lstrip rest else s
  end.

Fixpoint rstrip (s : string) : string :=
  match s with
  | EmptyString => EmptyString
  | String c rest =>
      match rstrip rest with
      | EmptyString => if is_space c then EmptyString else String c EmptyString
      | kept => String c kept
      end
  end.

(** [s.strip()]: leading and trailing whitespace removed. *)
Definition strip (s : string) : string := rstrip (lstrip s).

(** ["%d" % n] for an [int]. *)
Definition format_d (n : Z) : string := NilZero.string_of_int (Z.to_int n).

(** A string made of whitespace only (the empty string included). *)
Fixpoint all_space (s : string) : bool :=
  match s with
  | EmptyString => true
  | String c rest => is_space c && all_space rest
  end.

End Py.

(** ** The path functions of [posixpath] that [os.path.abspath] uses *)

Module Posixpath.

(** The separator, ['/']. *)
Definition sep : ascii := "/"%char.

(** [isabs(s)]: [s.startswith('/')]. *)
Definition isabs (s : string) : bool :=
  match s with
  | String c _ => Ascii.eqb c sep
  | EmptyString => false
  end.

(** [s.endswith('/')]. *)
Fixpoint endswith_sep (s : string) : bool :=
  match s with
  | EmptyString => false
  | String c EmptyString => Ascii.eqb c sep
  | String _ rest => endswith_sep rest
  end.

(** [join(a, b)] for one component [b]. *)
Definition join (a b : string) : string :=
  if isabs b then b
  else if negb (Py.truthy a) || endswith_sep a then (a ++ b)%string
  else (a ++ "/" ++ b)%string.

(** ['/'.join(comps)]. *)
Fixpoint join_sep (comps : list string) : string :=
  match comps with
  | [] => EmptyString
  | [comp] => comp
  | comp :: rest => (comp ++ "/" ++ join_sep rest)%string
  end.

(** The number of slashes [normpath] keeps in front: none for a relative
    path, two for a path that starts with exactly two, one otherwise. *)
Definition initial_slashes (s : string) : nat :=
  match s with
  | String c1 (String c2 (String c3 _)) =>
      if Ascii.eqb c1 sep
      then if Ascii.eqb c2 sep && negb (Ascii.eqb c3 sep) then 2 else 1
      else 0
  | String c1 (String c2 EmptyString) =>
      if Ascii.eqb c1 sep then if Ascii.eqb c2 sep then 2 else 1 else 0
  | String c1 EmptyString => if Ascii.eqb c1 sep then 1 else 0
  | EmptyString => 0
  end.

(** [new_comps[-1] == '..'], false on the empty list. *)
Definition last_is_dotdot (new_comps : list string) : bool :=
  match new_comps with
  | [] => false
  | _ => String.eqb (last new_comps EmptyString) ".."
  end.

(** One turn of the loop of [normpath] over the components. *)
Definition step (slashes : nat) (new_comps : list string) (comp : string)
  : list string :=
  if String.eqb comp "" || String.eqb comp "." then new_comps
  else if negb (String.eqb comp "..")
          || (Nat.eqb slashes 0
              && match new_comps with [] => true | _ => false end)
          || last_is_dotdot new_comps
  then new_comps ++ [comp]
  else removelast new_comps.

(** ['/' * n]. *)
Fixpoint slashes_string (n : nat) : string :=
  match n with
  | O => EmptyString
  | S n' => String sep (slashes_string n')
  end.

(** [normpath(path)]. *)
Definition normpath (path : string) : string :=
  if negb (Py.truthy path) then "."
  else
    let slashes := initial_slashes path in
    let comps := Py.split sep path in
    let new_comps := fold_left (step slashes) comps [] in
    let path := join_sep new_comps in
    let path := (slashes_string slashes ++ path)%string in
    if Py.truthy path then path else ".".

(** [abspath(path)] in a process whose working directory is [cwd]. *)
Definition abspath (cwd path : string) : string :=
  normpath (if isabs path then path else join cwd path).

End Posixpath.

(** ** Exceptions *)

(** Modelled from the spec: the classes of [ply.git.exc], which the module
    imports and raises but does not define.  [PatchDidNotApplyCleanly] is
    raised as a bare class (no arguments), [MutuallyIncompatibleOptions]
    with a message, [GitException] with the triple (return code, stdout,
    stderr).  [CalledProcessError] and [OSError] are the standard library's:
    the first is what [subprocess.check_call] raises on a non-zero exit, the
    second what [os.chdir] raises when the directory cannot be entered and
    what [os.getcwd] raises when the working directory is gone. *)
Inductive exn : Type :=
| PatchDidNotApplyCleanly
| MutuallyIncompatibleOptions (message : string)
| GitException (returncode : Z) (stdout : string) (stderr : option string)
| CalledProcessError (returncode : Z) (cmd : list string)
| OSError (filename : string).

(** ** The platform *)

(** What the module relies on and does not implement.  [FS] is the state of
    the file system, [can_enter fs d] tells whether directory [d] is there
    to be entered: whether [os.chdir(d)] succeeds, and whether
    [os.getcwd()] succeeds for a process standing in [d], [exec fs cwd argv] runs the program named by [argv] in directory
    [cwd] to completion and gives the file system it leaves, its exit
    status and what it wrote to standard output. *)
Class Platform : Type := {
  FS : Type;
  can_enter : FS -> string -> bool;
  exec : FS -> string -> list string -> FS * Z * string
}.

(** The calls that reach outside the interpreter, in the order made. *)
Inductive Event : Type :=
| EvAbspath (path : string)
| EvGetcwd
| EvChdir (path : string)
| EvSpawn (cwd : string) (argv : list string).

Section Model.

Context {P : Platform}.

(** The state of the process and of its surroundings: the working
    directory, the file system, and the record of calls made so far. *)
Record World : Type := mkWorld {
  cwd : string;
  fs : FS;
  trace : list Event
}.

Definition record (e : Event) (w : World) : World :=
  mkWorld (cwd w) (fs w) (trace w ++ [e]).

(** *** Computations that read and change the world and may raise *)

Definition M (A : Type) : Type := World -> (exn + A) * World.

Definition ret {A : Type} (a : A) : M A := fun w => (inr a, w).

Definition raise {A : Type} (e : exn) : M A := fun w => (inl e, w).

Definition bind {A B : Type} (m : M A) (k : A -> M B) : M B :=
  fun w =>
    match m w with
    | (inl e, w') => (inl e, w')
    | (inr a, w') => k a w'
    end.

(** [try: body / except: handler]. *)
Definition try_except {A : Type} (body : M A) (handler : exn -> M A) : M A :=
  fun w =>
    match body w with
    | (inl e, w') => handler e w'
    | (inr a, w') => (inr a, w')
    end.

(** [try: body / finally: cleanup]: the cleanup runs whatever the body
    did; an exception of the cleanup replaces the body's outcome. *)
Definition try_finally {A : Type} (body : M A) (cleanup : M unit) : M A :=
  fun w =>
    match body w with
    | (outcome, w') =>
        match cleanup w' with
        | (inl e, w'') => (inl e, w'')
        | (inr _, w'') => (outcome, w'')
        end
    end.

End Model.

Declare Scope py_scope.
Delimit Scope py_scope with py.
Notation "x <- m ;; k" := (bind m (fun x => k))
  (at level 100, m at next level, right associativity) : py_scope.
Notation "m ;;; k" := (bind m (fun _ => k))
  (at level 100, right associativity) : py_scope.
Open Scope py_scope.

Section Primitives.

Context {P : Platform}.

(** [os.getcwd()]: the working directory, or [OSError] when that
    directory is gone (the error names no file: the empty string). *)
Definition os_getcwd : M string :=
  fun w =>
    let w' := record EvGetcwd w in
    if can_enter (fs w) (cwd w)
    then (inr (cwd w), w')
    else (inl (OSError EmptyString), w').

(** [os.chdir(d)]: enters [d], or raises and leaves the directory as it
    was. *)
Definition os_chdir (d : string) : M unit :=
  fun w =>
    let w' := record (EvChdir d) w in
    if can_enter (fs w) d
    then (inr tt, mkWorld d (fs w') (trace w'))
    else (inl (OSError d), w').

(** [os.path.abspath(p)]: a relative path is joined to [os.getcwd()],
    which may raise; the result is normalised. *)
Definition os_path_abspath (p : string) : M string :=
  fun w =>
    let w' := record (EvAbspath p) w in
    if Posixpath.isabs p
    then (inr (Posixpath.normpath p), w')
    else bind os_getcwd
           (fun cwd => ret (Posixpath.normpath (Posixpath.join cwd p))) w'.

(** Running a child process to completion in the current directory; the
    result is its return code and its standard output. *)
Definition spawn (args : list string) : M (Z * string) :=
  fun w =>
    match exec (fs w) (cwd w) args with
    | (fs', returncode, out) =>
        (inr (returncode, out),
         mkWorld (cwd w) fs' (trace w ++ [EvSpawn (cwd w) args]))
    end.

(** [subprocess.check_call(args)]. *)
Definition check_call (args : list string) : M unit :=
  r <- spawn args ;;
  if Z.eqb (fst r) 0 then ret tt
  else raise (CalledProcessError (fst r) args).

(** [proc = subprocess.Popen(args, stdout=subprocess.PIPE)] followed by
    [proc.communicate()]: the return code, the captured standard output,
    and [None] for standard error, which is not piped. *)
Definition popen_communicate (args : list string)
  : M (Z * string * option string) :=
  r <- spawn args ;;
  ret (fst r, snd r, None).

End Primitives.

(** ** The command layer *)

Section Commands.

Context {P : Platform}.

(** [add(filename)]. *)
Definition add_args (filename : string) : list string :=
  ["git"; "add"; filename].

Definition add (filename : string) : M unit :=
  check_call (add_args filename).

(** [am] takes any number of patch paths and keyword options; the three
    options read default to [False]; the patch paths are put in the
    vector before the flags. *)
Definition am_args (patch_paths : list string)
    (three_way_merge resolved quiet : bool) : list string :=
  let args := ["git"; "am"] in
  let args := args ++ patch_paths in
  let args := if three_way_merge then args ++ ["--3way"] else args in
  let args := if resolved then args ++ ["--resolved"] else args in
  let args := if quiet then args ++ ["-q"] else args in
  args.

Definition am (patch_paths : list string)
    (three_way_merge resolved quiet : bool) : M unit :=
  try_except
    (check_call (am_args patch_paths three_way_merge resolved quiet))
    (fun e =>
       match e with
       | CalledProcessError _ _ => raise PatchDidNotApplyCleanly
       | _ => raise e
       end).

(** [checkout(branch_name, create=False, create_and_reset=False)]. *)
Definition checkout_args (branch_name : string)
    (create create_and_reset : bool) : list string :=
  let args := ["git"; "checkout"] in
  let args := if create then args ++ ["-b"] else args in
  let args := if create_and_reset then args ++ ["-B"] else args in
  let args := args ++ [branch_name] in
  args.

Definition checkout (branch_name : string)
    (create create_and_reset : bool) : M unit :=
  if create && create_and_reset
  then raise (MutuallyIncompatibleOptions "create and create_and_reset")
  else check_call (checkout_args branch_name create create_and_reset).

(** [commit(msg, all=False, amend=False, use_commit_object=None,
    quiet=False)]: [msg] is tested against [None], [use_commit_object]
    for truth. *)
Definition commit_args (msg : option string) (all amend : bool)
    (use_commit_object : option string) (quiet : bool) : list string :=
  let args := ["git"; "commit"] in
  let args := match msg with
              | Some m => args ++ ["-m"; m]
              | None => args
              end in
  let args := if all then args ++ ["-a"] else args in
  let args := if amend then args ++ ["--amend"] else args in
  let args := match use_commit_object with
              | Some c => if Py.truthy c then args ++ ["-C"; c] else args
              | None => args
              end in
  let args := if quiet then args ++ ["-q"] else args in
  args.

Definition commit (msg : option string) (all amend : bool)
    (use_commit_object : option string) (quiet : bool) : M unit :=
  check_call (commit_args msg all amend use_commit_object quiet).

(** [format_patch(since)]. *)
Definition format_patch_args (since : string) : list string :=
  ["git"; "format-patch"; since].

(** [[line.strip() for line in stdout.split('\n') if line]]. *)
Definition format_patch_filenames (stdout : string) : list string :=
  map Py.strip (filter Py.truthy (Py.split Py.nl stdout)).

Definition format_patch (since : string) : M (list string) :=
  r <- popen_communicate (format_patch_args since) ;;
  match r with
  | (returncode, stdout, stderr) =>
      if negb (Z.eqb returncode 0)
      then raise (GitException returncode stdout stderr)
      else ret (format_patch_filenames stdout)
  end.

(** [init(directory, quiet=False)]. *)
Definition init_args (directory : string) (quiet : bool) : list string :=
  let args := ["git"; "init"] in
  let args := if quiet then args ++ ["-q"] else args in
  let args := args ++ [directory] in
  args.

Definition init (directory : string) (quiet : bool) : M unit :=
  check_call (init_args directory quiet).

(** [log(cmd_arg=None, count=None, pretty=None, skip=None)]: [pretty] and
    [cmd_arg] are tested for truth, [count] and [skip] against [None]. *)
Definition log_args (cmd_arg : option string) (count : option Z)
    (pretty : option string) (skip : option Z) : list string :=
  let args := ["git"; "log"] in
  let args := match pretty with
              | Some p => if Py.truthy p then args ++ [("--pretty=" ++ p)%string] else args
              | None => args
              end in
  let args := match count with
              | Some n => args ++ [("-" ++ Py.format_d n)%string]
              | None => args
              end in
  let args := match skip with
              | Some n => args ++ [("--skip=" ++ Py.format_d n)%string]
              | None => args
              end in
  let args := match cmd_arg with
              | Some a => if Py.truthy a then args ++ [a] else args
              | None => args
              end in
  args.

Definition log (cmd_arg : option string) (count : option Z)
    (pretty : option string) (skip : option Z) : M string :=
  r <- popen_communicate (log_args cmd_arg count pretty skip) ;;
  match r with
  | (returncode, stdout, stderr) =>
      if negb (Z.eqb returncode 0)
      then raise (GitException returncode stdout stderr)
      else ret stdout
  end.

(** [reset(commit, hard=False, quiet=False)]: the commit is put in the
    vector before the flags. *)
Definition reset_args (commit : string) (hard quiet : bool) : list string :=
  let args := ["git"; "reset"; commit] in
  let args := if hard then args ++ ["--hard"] else args in
  let args := if quiet then args ++ ["-q"] else args in
  args.

Definition reset (commit : string) (hard quiet : bool) : M unit :=
  check_call (reset_args commit hard quiet).

End Commands.

(** ** Calls, as a caller or a [Repo] attribute makes them *)

(** One call of one of the eight commands with its arguments. *)
Inductive Call : Type :=
| CallAdd (filename : string)
| CallAm (patch_paths : list string) (three_way_merge resolved quiet : bool)
| CallCheckout (branch_name : string) (create create_and_reset : bool)
| CallCommit (msg : option string) (all amend : bool)
    (use_commit_object : option string) (quiet : bool)
| CallFormatPatch (since : string)
| CallInit (directory : string) (quiet : bool)
| CallLog (cmd_arg : option string) (count : option Z)
    (pretty : option string) (skip : option Z)
| CallReset (commit : string) (hard quiet : bool).

(** What a command returns: [None], a string, or a list of strings. *)
Inductive Value : Type :=
| VNone
| VStr (s : string)
| VList (l : list string).

(** [__cmds__]. *)
Definition cmds : list string :=
  ["add"; "am"; "checkout"; "commit"; "format_patch"; "init"; "log"; "reset"].

(** The name under which the called function is found in [globals()]. *)
Definition fname (c : Call) : string :=
  match c with
  | CallAdd _ => "add"
  | CallAm _ _ _ _ => "am"
  | CallCheckout _ _ _ => "checkout"
  | CallCommit _ _ _ _ _ => "commit"
  | CallFormatPatch _ => "format_patch"
  | CallInit _ _ => "init"
  | CallLog _ _ _ _ => "log"
  | CallReset _ _ _ => "reset"
  end.

Section Repo.

Context {P : Platform}.

(** A call of [fn] with its arguments, for [fn] one of the eight
    commands. *)
Definition call (c : Call) : M Value :=
  match c with
  | CallAdd filename =>
      add filename ;;; ret VNone
  | CallAm patch_paths three_way_merge resolved quiet =>
      am patch_paths three_way_merge resolved quiet ;;; ret VNone
  | CallCheckout branch_name create create_and_reset =>
      checkout branch_name create create_and_reset ;;; ret VNone
  | CallCommit msg all amend use_commit_object quiet =>
      commit msg all amend use_commit_object quiet ;;; ret VNone
  | CallFormatPatch since =>
      filenames <- format_patch since ;; ret (VList filenames)
  | CallInit directory quiet =>
      init directory quiet ;;; ret VNone
  | CallLog cmd_arg count pretty skip =>
      stdout <- log cmd_arg count pretty skip ;; ret (VStr stdout)
  | CallReset commit hard quiet =>
      reset commit hard quiet ;;; ret VNone
  end.

(** A [Repo] object: its one data attribute. *)
Record Repo : Type := mkRepo { path : string }.

(** [Repo.__init__(self, path)]: the loop over [__cmds__] only binds
    attributes, which [Repo_call] below stands for. *)
Definition Repo_init (p : string) : M Repo :=
  resolved <- os_path_abspath p ;;
  ret (mkRepo resolved).

(** [Repo.chdir], the context manager, around the body of a [with]:
    what precedes the [yield] runs first and outside the [try]. *)
Definition Repo_chdir {A : Type} (self : Repo) (body : M A) : M A :=
  orig_path <- os_getcwd ;;
  os_chdir (path self) ;;;
  try_finally body (os_chdir orig_path).

(** [Repo._with_temporary_chdir(fn)], applied. *)
Definition with_temporary_chdir {A : Type} (self : Repo) (fn : M A) : M A :=
  Repo_chdir self fn.

(** A call of the attribute of [self] named [fname c], with the
    arguments of [c]. *)
Definition Repo_call (self : Repo) (c : Call) : M Value :=
  with_temporary_chdir self (call c).

End Repo.

(** ** The vocabulary of the specification *)

(** The argument vector a call hands to the child process. *)
Definition argv (c : Call) : list string :=
  match c with
  | CallAdd filename => add_args filename
  | CallAm patch_paths three_way_merge resolved quiet =>
      am_args patch_paths three_way_merge resolved quiet
  | CallCheckout branch_name create create_and_reset =>
      checkout_args branch_name create create_and_reset
  | CallCommit msg all amend use_commit_object quiet =>
      commit_args msg all amend use_commit_object quiet
  | CallFormatPatch since => format_patch_args since
  | CallInit directory quiet => init_args directory quiet
  | CallLog cmd_arg count pretty skip => log_args cmd_arg count pretty skip
  | CallReset commit hard quiet => reset_args commit hard quiet
  end.

(** The option combinations a command accepts: all but [checkout] with
    both [create] and [create_and_reset]. *)
Definition valid (c : Call) : bool :=
  match c with
  | CallCheckout _ create create_and_reset => negb (create && create_and_reset)
  | _ => true
  end.

(** The git subcommand of a call. *)
Definition subcommand (c : Call) : string :=
  match c with
  | CallAdd _ => "add"
  | CallAm _ _ _ _ => "am"
  | CallCheckout _ _ _ => "checkout"
  | CallCommit _ _ _ _ _ => "commit"
  | CallFormatPatch _ => "format-patch"
  | CallInit _ _ => "init"
  | CallLog _ _ _ _ => "log"
  | CallReset _ _ _ => "reset"
  end.

(** What one option contributes to the vector.  A boolean option: its
    token when true, nothing otherwise. *)
Definition flag (b : bool) (token : string) : list string :=
  if b then [token] else [].

(** A value option passed as two entries: the flag token, then the value. *)
Definition with_value (token value : string) : list string :=
  [token; value].

(** A value option passed as one entry: the value glued to the flag. *)
Definition joined (prefix value : string) : list string :=
  [(prefix ++ value)%string].

(** An option tested against [None]. *)
Definition if_given {A : Type} (o : option A) (f : A -> list string)
  : list string :=
  match o with
  | Some a => f a
  | None => []
  end.

(** A string option tested for truth: [None] and [''] count as absent. *)
Definition if_true (o : option string) (f : string -> list string)
  : list string :=
  match o with
  | Some s => if Py.truthy s then f s else []
  | None => []
  end.

(** The tokens that the options of a call contribute, in the order in
    which the command appends them. *)
Definition flags (c : Call) : list string :=
  match c with
  | CallAdd _ => []
  | CallAm _ three_way_merge resolved quiet =>
      flag three_way_merge "--3way" ++ flag resolved "--resolved"
        ++ flag quiet "-q"
  | CallCheckout _ create create_and_reset =>
      flag create "-b" ++ flag create_and_reset "-B"
  | CallCommit msg all amend use_commit_object quiet =>
      if_given msg (with_value "-m") ++ flag all "-a" ++ flag amend "--amend"
        ++ if_true use_commit_object (with_value "-C") ++ flag quiet "-q"
  | CallFormatPatch _ => []
  | CallInit _ quiet => flag quiet "-q"
  | CallLog _ count pretty skip =>
      if_true pretty (joined "--pretty=")
        ++ if_given count (fun n => joined "-" (Py.format_d n))
        ++ if_given skip (fun n => joined "--skip=" (Py.format_d n))
  | CallReset _ hard quiet => flag hard "--hard" ++ flag quiet "-q"
  end.

(** The positional arguments of a call. *)
Definition positionals (c : Call) : list string :=
  match c with
  | CallAdd filename => [filename]
  | CallAm patch_paths _ _ _ => patch_paths
  | CallCheckout branch_name _ _ => [branch_name]
  | CallCommit _ _ _ _ _ => []
  | CallFormatPatch since => [since]
  | CallInit directory _ => [directory]
  | CallLog cmd_arg _ _ _ => if_true cmd_arg (fun a => [a])
  | CallReset commit _ _ => [commit]
  end.

(** The layout the specification gives for every command: program,
    subcommand, flags, positional arguments. *)
Definition flags_then_positionals (c : Call) : list string :=
  "git" :: subcommand c :: flags c ++ positionals c.

(** The commands that put their positional arguments before the flags. *)
Definition positionals_first (c : Call) : bool :=
  match c with
  | CallAm _ _ _ _ | CallReset _ _ _ => true
  | _ => false
  end.

(** The layout the commands produce. *)
Definition layout (c : Call) : list string :=
  "git" :: subcommand c ::
    (if positionals_first c then positionals c ++ flags c
     else flags c ++ positionals c).

(** The lines of the captured output that are not empty, in order. *)
Definition nonempty_lines (stdout : string) : list string :=
  filter Py.truthy (Py.split Py.nl stdout).

(** No line of the output begins or ends with whitespace: stripping
    leaves every line as it is. *)
Definition lines_trimmed (stdout : string) : bool :=
  forallb (fun line => String.eqb (Py.strip line) line)
          (Py.split Py.nl stdout).

(** An event of a call made inside directory [d]: no path is resolved, and
    a process is spawned in [d] only. *)
Definition made_inside (d : string) (e : Event) : Prop :=
  match e with
  | EvAbspath _ => False
  | EvSpawn dir _ => dir = d
  | _ => True
  end.

(** A string with the given character in it. *)
Fixpoint contains (a : ascii) (s : string) : bool :=
  match s with
  | EmptyString => false
  | String c rest => Ascii.eqb c a || contains a rest
  end.

(** A component of a normalised path: a name, neither empty nor [.] nor
    [..], and without a slash. *)
Definition proper (comp : string) : Prop :=
  comp <> "" /\ comp <> "." /\ comp <> ".."
  /\ contains Posixpath.sep comp = false.

(** What the specification's word "canonical" asks for: a canonical path
    names no symbolic link.  [links] lists the symbolic links of a file system, each with the path
    it points to; [names_link links p] tells that [p] is one of them. *)
Definition names_link (links : list (string * string)) (p : string) : bool :=
  existsb (fun link => String.eqb (fst link) p) links.

(** A line feed as a string, to write outputs line by line. *)
Definition LF : string := String Py.nl EmptyString.

(** ** A platform to run the model on *)

Module Demo.

(** The file system state is the list of directories that have been
    removed.  Checking out a branch removes [/repo/docs], which that
    branch does not have; [am] is rejected with status 128; the two
    capturing commands print fixed text. *)
Definition removed (fs : list string) (d : string) : bool :=
  existsb (String.eqb d) fs.

Definition run (fs : list string) (cwd : string) (args : list string)
  : list string * Z * string :=
  match args with
  | "git" :: "checkout" :: _ => ("/repo/docs" :: fs, 0%Z, "")
  | "git" :: "am" :: _ => (fs, 128%Z, "")
  | "git" :: "format-patch" :: _ =>
      (fs, 0%Z, ("0001-a.patch" ++ LF ++ "0002-b.patch" ++ LF)%string)
  | "git" :: "log" :: _ =>
      (fs, 0%Z, ("1f3a first" ++ LF ++ " " ++ LF)%string)
  | _ => (fs, 0%Z, "")
  end.

Definition platform : Platform :=
  {| FS := list string;
     can_enter := fun fs d => negb (removed fs d);
     exec := run |}.

(** A process started in [/repo/docs], on an untouched file system. *)
Definition start : @World platform :=
  @mkWorld platform "/repo/docs" [] [].

Definition repo : @Repo := mkRepo "/repo".

End Demo.

(** ** Further vocabulary: processes, lines, names *)

(** The child processes of a trace, in order: for each one the directory
    it ran in and its argument vector. *)
Fixpoint spawned (t : list Event) : list (string * list string) :=
  match t with
  | [] => []
  | EvSpawn d args :: t' => (d, args) :: spawned t'
  | _ :: t' => spawned t'
  end.

(** The commands that run their process through [subprocess.check_call]
    and do not catch what it raises. *)
Definition plain (c : Call) : bool :=
  match c with
  | CallAdd _ | CallCheckout _ _ _ | CallCommit _ _ _ _ _
  | CallInit _ _ | CallReset _ _ _ => true
  | _ => false
  end.

(** The commands that capture the standard output of their process. *)
Definition capturing (c : Call) : bool :=
  match c with
  | CallFormatPatch _ | CallLog _ _ _ _ => true
  | _ => false
  end.

(** A string with a line feed in it. *)
Fixpoint has_nl (s : string) : bool :=
  match s with
  | EmptyString => false
  | String c rest => Ascii.eqb c Py.nl || has_nl rest
  end.

(** A string made of line feeds only (the empty string included). *)
Fixpoint only_nl (s : string) : bool :=
  match s with
  | EmptyString => true
  | String c rest => Ascii.eqb c Py.nl && only_nl rest
  end.

(** A file name as [git format-patch] prints one: not empty, on one line,
    without whitespace at either end. *)
Definition printable (name : string) : bool :=
  Py.truthy name && negb (has_nl name) && String.eqb (Py.strip name) name.

(** The output that lists the given names, one per line. *)
Fixpoint print_lines (names : list string) : string :=
  match names with
  | [] => EmptyString
  | name :: names' => (name ++ LF ++ print_lines names')%string
  end.

(** ** A platform on which git always fails *)

Module Broken.

(** Nothing on the file system changes; every process prints a complaint
    and exits with status 128. *)
Definition run (fs : unit) (cwd : string) (args : list string)
  : unit * Z * string :=
  (fs, 128%Z, ("fatal: not a git repository" ++ LF)%string).

Definition platform : Platform :=
  {| FS := unit;
     can_enter := fun _ _ => true;
     exec := run |}.

Definition start : @World platform := @mkWorld platform "/home" tt [].

End Broken.

(** ** Facts about the primitives *)

(** Unfolds the monad and the primitives down to the platform's calls. *)
Ltac run_cmd :=
  unfold commit, add, init, reset, checkout, am, log, format_patch,
    check_call, popen_communicate, spawn, try_except, try_finally,
    os_getcwd, os_chdir, os_path_abspath, bind, ret, raise, record in *;
  cbn [fst snd cwd fs trace] in *.

(** Names the three results of the child process run by the goal. *)
Ltac run_exec :=
  match goal with
  | |- context [exec ?f ?d ?a] =>
      let fs' := fresh "fs'" in
      let returncode := fresh "returncode" in
      let out := fresh "out" in
      let E := fresh "Hexec" in
      destruct (exec f d a) as [[fs' returncode] out] eqn:E;
      cbn [fst snd cwd fs trace]
  end.

Section PrimitiveFacts.

Context {P : Platform}.

Lemma check_call_cwd (args : list string) (w : World) :
  cwd (snd (check_call args w)) = cwd w.
Proof.
  run_cmd. run_exec. destruct (Z.eqb returncode 0); reflexivity.
Qed.

Lemma check_call_trace (args : list string) (w : World) :
  trace (snd (check_call args w)) = trace w ++ [EvSpawn (cwd w) args].
Proof.
  run_cmd. run_exec. destruct (Z.eqb returncode 0); reflexivity.
Qed.

(** A child process cannot move its parent: no command changes the
    working directory. *)
Lemma call_cwd (c : Call) (w : World) : cwd (snd (call c w)) = cwd w.
Proof.
  destruct c; unfold call; run_cmd;
    try (destruct (create && create_and_reset); [reflexivity|]);
    run_exec; destruct (Z.eqb returncode 0); reflexivity.
Qed.

(** Every command builds the vector [layout] describes. *)
Lemma argv_layout (c : Call) : argv c = layout c.
Proof.
  destruct c; unfold layout, argv, flags, positionals, positionals_first,
    subcommand, add_args, am_args, checkout_args, commit_args,
    format_patch_args, init_args, log_args, reset_args, flag, with_value,
    joined, if_given, if_true.
  - reflexivity.
  - destruct three_way_merge, resolved, quiet; cbn;
      repeat rewrite <- app_assoc; cbn; rewrite ?app_nil_r; reflexivity.
  - destruct create, create_and_reset; reflexivity.
  - destruct msg, all, amend, use_commit_object as [o|], quiet;
      try destruct (Py.truthy o); reflexivity.
  - reflexivity.
  - destruct quiet; reflexivity.
  - destruct pretty as [p|], count, skip, cmd_arg as [a|];
      try destruct (Py.truthy p); try destruct (Py.truthy a); reflexivity.
  - destruct hard, quiet; reflexivity.
Qed.

(** A valid call runs exactly one child process, in the current
    directory, with the vector built from its arguments. *)
Lemma call_trace (c : Call) (w : World) :
  valid c = true ->
  trace (snd (call c w)) = trace w ++ [EvSpawn (cwd w) (argv c)].
Proof.
  intros Hvalid.
  destruct c; unfold call, argv; cbn [valid] in Hvalid; run_cmd;
    try (destruct (create && create_and_reset); [discriminate|]);
    run_exec; destruct (Z.eqb returncode 0); reflexivity.
Qed.

(** Whatever the call, the events it adds are at most one spawn in the
    directory it was started in. *)
Lemma call_events (c : Call) (w : World) :
  trace (snd (call c w)) = trace w
  \/ trace (snd (call c w)) = trace w ++ [EvSpawn (cwd w) (argv c)].
Proof.
  destruct (valid c) eqn:Hvalid.
  - right. now apply call_trace.
  - left. destruct c; try discriminate. cbn [valid] in Hvalid.
    apply negb_false_iff in Hvalid. unfold call. run_cmd.
    rewrite Hvalid. reflexivity.
Qed.

(** [Repo.__init__] binds an attribute for every command: each call has
    its function among [__cmds__]. *)
Lemma fname_in_cmds (c : Call) : In (fname c) cmds.
Proof.
  destruct c; cbn; tauto.
Qed.

Lemma all_space_lstrip (s : string) :
  Py.all_space s = true -> Py.lstrip s = EmptyString.
Proof.
  induction s as [|c s IH]; cbn; [reflexivity|].
  intros H. apply andb_true_iff in H as [Hc Hs]. rewrite Hc. now apply IH.
Qed.

Lemma all_space_strip (s : string) :
  Py.all_space s = true -> Py.strip s = EmptyString.
Proof.
  intros H. unfold Py.strip. now rewrite all_space_lstrip.
Qed.

End PrimitiveFacts.

(** ** The Repo facade and the working directory *)

Section RepoFacts.

Context {P : Platform}.

(** The four ways [Repo.chdir] around a body can go: the caller's
    directory is gone; the repository cannot be entered; the body ran and
    the way back is open; the body ran and the way back is closed. *)
Lemma Repo_chdir_cases {A : Type} (self : Repo) (body : M A) (w : World) :
  Repo_chdir self body w
  = if can_enter (fs w) (cwd w)
    then
      if can_enter (fs w) (path self)
      then
        let r := body (mkWorld (path self) (fs w)
                         (trace w ++ [EvGetcwd; EvChdir (path self)])) in
        if can_enter (fs (snd r)) (cwd w)
        then (fst r,
              mkWorld (cwd w) (fs (snd r))
                (trace (snd r) ++ [EvChdir (cwd w)]))
        else (inl (OSError (cwd w)),
              mkWorld (cwd (snd r)) (fs (snd r))
                (trace (snd r) ++ [EvChdir (cwd w)]))
      else (inl (OSError (path self)),
            mkWorld (cwd w) (fs w)
              (trace w ++ [EvGetcwd; EvChdir (path self)]))
    else (inl (OSError EmptyString),
          mkWorld (cwd w) (fs w) (trace w ++ [EvGetcwd])).
Proof.
  unfold Repo_chdir. run_cmd.
  destruct (can_enter (fs w) (cwd w)); [|reflexivity].
  cbn [fst snd cwd fs trace]. rewrite <- app_assoc. cbn [app].
  destruct (can_enter (fs w) (path self)); [|reflexivity].
  cbv zeta.
  destruct (body _) as [outcome w1]. cbn [fst snd].
  destruct (can_enter (fs w1) (cwd w)); reflexivity.
Qed.

(** Once the switch to the repository has been made, the last thing a
    [Repo] call does is the [os.chdir] back to the directory it started
    in, whether the command returned or raised. *)
Lemma Repo_call_restore_attempted (self : Repo) (c : Call) (w : World) :
  can_enter (fs w) (cwd w) = true ->
  can_enter (fs w) (path self) = true ->
  exists evs,
    trace (snd (Repo_call self c w)) = evs ++ [EvChdir (cwd w)].
Proof.
  intros Hcwd Henter.
  unfold Repo_call, with_temporary_chdir.
  rewrite Repo_chdir_cases, Hcwd, Henter. cbv zeta.
  destruct (call c _) as [result w1]. cbn [fst snd].
  destruct (can_enter (fs w1) (cwd w)); cbn [snd trace]; eauto.
Qed.

(** C1, as amended.  For every command called through a [Repo]: the
    working directory after the call is the one from before the call
    whenever the original directory can still be entered when the call
    finishes, and this whatever the outcome of the call (a value or a
    raised exception).  When the switch to the repository was made (the
    caller's directory could be read and the repository entered), the call
    ends with the [os.chdir] back to the original directory, whether the
    command returned or raised and whether or not that [os.chdir]
    succeeds.  When the switch was not made, the command is not run and
    directory and file system are as before. *)
Theorem Repo_call_restores_cwd
    (self : Repo) (c : Call) (w : World) (outcome : exn + Value)
    (w' : World) :
  Repo_call self c w = (outcome, w') ->
  (can_enter (fs w') (cwd w) = true -> cwd w' = cwd w)
  /\ (can_enter (fs w) (cwd w) = true ->
      can_enter (fs w) (path self) = true ->
      exists evs, trace w' = evs ++ [EvChdir (cwd w)])
  /\ (can_enter (fs w) (cwd w) && can_enter (fs w) (path self) = false ->
      cwd w' = cwd w /\ fs w' = fs w).
Proof.
  intros Hcall. split; [|split].
  - revert Hcall. unfold Repo_call, with_temporary_chdir.
    rewrite Repo_chdir_cases.
    destruct (can_enter (fs w) (cwd w));
      [destruct (can_enter (fs w) (path self))|].
    + cbv zeta. destruct (call c _) as [result w1]. cbn [fst snd].
      destruct (can_enter (fs w1) (cwd w)) eqn:Hback;
        intros Heq Hok; injection Heq as _ <-; cbn in *;
        [reflexivity | congruence].
    + intros Heq _. injection Heq as _ <-. reflexivity.
    + intros Heq _. injection Heq as _ <-. reflexivity.
  - intros Hcwd Henter.
    destruct (Repo_call_restore_attempted self c w Hcwd Henter)
      as [evs Hevs].
    rewrite Hcall in Hevs. now exists evs.
  - revert Hcall. unfold Repo_call, with_temporary_chdir.
    rewrite Repo_chdir_cases.
    destruct (can_enter (fs w) (cwd w));
      [destruct (can_enter (fs w) (path self))|]; cbn [andb];
      intros Heq Hno; try discriminate Hno;
      injection Heq as _ <-; split; reflexivity.
Qed.

(** The command's own outcome is what the caller gets when the way back
    is open. *)
Lemma Repo_call_outcome (self : Repo) (c : Call) (w : World) :
  can_enter (fs w) (cwd w) = true ->
  can_enter (fs w) (path self) = true ->
  let inside := mkWorld (path self) (fs w)
                  (trace w ++ [EvGetcwd; EvChdir (path self)]) in
  can_enter (fs (snd (call c inside))) (cwd w) = true ->
  fst (Repo_call self c w) = fst (call c inside).
Proof.
  intros Hcwd Henter inside Hback.
  unfold Repo_call, with_temporary_chdir.
  rewrite Repo_chdir_cases, Hcwd, Henter. cbv zeta. fold inside.
  now rewrite Hback.
Qed.

End RepoFacts.

(** C1 at a concrete call: the repository is [/repo], the caller stands
    in [/repo/docs], and [am] raises because the patch is rejected. *)
Lemma Repo_call_restores_cwd_witness :
  cwd (snd (Repo_call Demo.repo (CallAm ["0001-a.patch"] true false false)
              Demo.start))
  = cwd Demo.start
  /\ exists evs,
       trace (snd (Repo_call Demo.repo
                     (CallAm ["0001-a.patch"] true false false)
                     Demo.start))
       = evs ++ [EvChdir (cwd Demo.start)].
Proof.
  destruct (@Repo_call_restores_cwd Demo.platform Demo.repo
              (CallAm ["0001-a.patch"] true false false) Demo.start
              _ _ (surjective_pairing _)) as (Hcwd & Hlast & _).
  split; [apply Hcwd | apply Hlast]; reflexivity.
Defined.

(** C1 as stated fails: checking out a branch that lacks the caller's
    directory removes it, the [os.chdir] back raises, and the process is
    left in the repository's directory. *)
Lemma Repo_call_cwd_not_restored :
  Repo_call Demo.repo (CallCheckout "topic" false false) Demo.start
  = (inl (OSError "/repo/docs"),
     @mkWorld Demo.platform "/repo" ["/repo/docs"]
       [EvGetcwd; EvChdir "/repo";
        EvSpawn "/repo" ["git"; "checkout"; "topic"];
        EvChdir "/repo/docs"])
  /\ cwd (snd (Repo_call Demo.repo (CallCheckout "topic" false false)
                 Demo.start))
     <> cwd Demo.start.
Proof.
  split; [reflexivity | vm_compute; discriminate].
Qed.

(** ** checkout: the two ways of creating a branch exclude each other *)

Section CheckoutFacts.

Context {P : Platform}.

(** C2.  Whatever the branch name, [checkout] with both [create] and
    [create_and_reset] raises [MutuallyIncompatibleOptions] and leaves
    the world as it found it: in particular no process is spawned.
    Called through a [Repo], the same exception or the [OSError] of a
    failed directory switch comes out, and still no process is
    spawned. *)
Theorem checkout_conflict (branch_name : string) (w : World) :
  checkout branch_name true true w
  = (inl (MutuallyIncompatibleOptions "create and create_and_reset"), w)
  /\ forall self : Repo,
      exists evs,
        trace (snd (Repo_call self (CallCheckout branch_name true true) w))
        = trace w ++ evs
        /\ Forall (fun e => match e with
                            | EvSpawn _ _ => False
                            | _ => True
                            end) evs.
Proof.
  split; [reflexivity|].
  intros self.
  unfold Repo_call, with_temporary_chdir.
  rewrite Repo_chdir_cases. unfold call. run_cmd. cbv zeta.
  cbn [andb fst snd cwd fs trace].
  destruct (can_enter (fs w) (cwd w)); cbn [fst snd cwd fs trace].
  - destruct (can_enter (fs w) (path self)); cbn [fst snd cwd fs trace].
    + exists [EvGetcwd; EvChdir (path self); EvChdir (cwd w)].
      split; [now rewrite <- !app_assoc | repeat constructor].
    + exists [EvGetcwd; EvChdir (path self)].
      split; [reflexivity | repeat constructor].
  - exists [EvGetcwd]. split; [reflexivity | repeat constructor].
Qed.

End CheckoutFacts.

(** ** am: one failure for every non-zero exit *)

Section AmFacts.

Context {P : Platform}.

(** C3.  [am] returns normally when the child process exits with status
    zero, and raises the bare [PatchDidNotApplyCleanly] (which carries
    neither the status nor any output) for every other status. *)
Theorem am_exit_status
    (patch_paths : list string) (three_way_merge resolved quiet : bool)
    (w : World) :
  fst (am patch_paths three_way_merge resolved quiet w)
  = match exec (fs w) (cwd w)
            (am_args patch_paths three_way_merge resolved quiet) with
    | (_, returncode, _) =>
        if Z.eqb returncode 0 then inr tt
        else inl PatchDidNotApplyCleanly
    end.
Proof.
  run_cmd. run_exec. destruct (Z.eqb returncode 0); reflexivity.
Qed.

End AmFacts.

(** ** The argument vectors *)

Section VectorFacts.

Context {P : Platform}.

(** C4, as amended.  Every valid call spawns one process whose vector
    starts with [git] and the subcommand.  For [add], [checkout],
    [commit], [format_patch], [init] and [log] the flag tokens come next
    and the positional arguments last; for [am] and [reset] the
    positional arguments come next and the flag tokens last. *)
Theorem call_vector_layout (c : Call) (w : World) :
  valid c = true ->
  argv c
  = "git" :: subcommand c ::
      (if positionals_first c then positionals c ++ flags c
       else flags c ++ positionals c)
  /\ trace (snd (call c w)) = trace w ++ [EvSpawn (cwd w) (argv c)].
Proof.
  intros Hvalid. split.
  - apply argv_layout.
  - now apply call_trace.
Qed.

End VectorFacts.

(** C4 at a concrete call of [am]. *)
Lemma call_vector_layout_witness :
  argv (CallAm ["0001-a.patch"; "0002-b.patch"] true false true)
  = ["git"; "am"; "0001-a.patch"; "0002-b.patch"; "--3way"; "-q"]
  /\ trace (snd (call (CallAm ["0001-a.patch"; "0002-b.patch"] true false true)
                   Demo.start))
     = [EvSpawn "/repo/docs"
          ["git"; "am"; "0001-a.patch"; "0002-b.patch"; "--3way"; "-q"]].
Proof.
  exact (@call_vector_layout Demo.platform
           (CallAm ["0001-a.patch"; "0002-b.patch"] true false true)
           Demo.start eq_refl).
Defined.

(** C4 as stated fails: [reset] puts the commit before [--hard]. *)
Lemma reset_flag_after_positional :
  argv (CallReset "HEAD~1" true false) = ["git"; "reset"; "HEAD~1"; "--hard"]
  /\ flags_then_positionals (CallReset "HEAD~1" true false)
     = ["git"; "reset"; "--hard"; "HEAD~1"]
  /\ argv (CallReset "HEAD~1" true false)
     <> flags_then_positionals (CallReset "HEAD~1" true false).
Proof.
  repeat split; discriminate.
Qed.

(** C5, as amended.  In all eight commands a boolean option contributes
    its flag token exactly when it is true.  [msg] of [commit], when not
    [None], contributes [-m] and the message as two entries;
    [use_commit_object], when not [None] and not empty, contributes [-C]
    and its value as two entries.  In [log], [pretty] (when not [None] and
    not empty), [count] and [skip] (when not [None]) each contribute one
    entry in which the value is glued to the flag. *)
Theorem option_contributions :
  (forall filename, add_args filename = ["git"; "add"; filename])
  /\ (forall patch_paths three_way_merge resolved quiet,
        am_args patch_paths three_way_merge resolved quiet
        = ["git"; "am"] ++ patch_paths
            ++ flag three_way_merge "--3way" ++ flag resolved "--resolved"
            ++ flag quiet "-q")
  /\ (forall branch_name create create_and_reset,
        checkout_args branch_name create create_and_reset
        = ["git"; "checkout"] ++ flag create "-b"
            ++ flag create_and_reset "-B" ++ [branch_name])
  /\ (forall msg all amend use_commit_object quiet,
        commit_args msg all amend use_commit_object quiet
        = ["git"; "commit"] ++ if_given msg (with_value "-m")
            ++ flag all "-a" ++ flag amend "--amend"
            ++ if_true use_commit_object (with_value "-C")
            ++ flag quiet "-q")
  /\ (forall since, format_patch_args since = ["git"; "format-patch"; since])
  /\ (forall directory quiet,
        init_args directory quiet
        = ["git"; "init"] ++ flag quiet "-q" ++ [directory])
  /\ (forall cmd_arg count pretty skip,
        log_args cmd_arg count pretty skip
        = ["git"; "log"] ++ if_true pretty (joined "--pretty=")
            ++ if_given count (fun n => joined "-" (Py.format_d n))
            ++ if_given skip (fun n => joined "--skip=" (Py.format_d n))
            ++ if_true cmd_arg (fun a => [a]))
  /\ (forall commit hard quiet,
        reset_args commit hard quiet
        = ["git"; "reset"; commit] ++ flag hard "--hard" ++ flag quiet "-q").
Proof.
  repeat split; intros.
  - exact (argv_layout (CallAm patch_paths three_way_merge resolved quiet)).
  - rewrite (argv_layout (CallCheckout branch_name create create_and_reset) : 
               checkout_args _ _ _ = _).
    unfold layout. cbn. now rewrite <- app_assoc.
  - rewrite (argv_layout (CallCommit msg all amend use_commit_object quiet) :
               commit_args _ _ _ _ _ = _).
    unfold layout. cbn. now rewrite app_nil_r.
  - exact (argv_layout (CallInit directory quiet)).
  - rewrite (argv_layout (CallLog cmd_arg count pretty skip) :
               log_args _ _ _ _ = _).
    unfold layout. cbn. now rewrite <- !app_assoc.
  - exact (argv_layout (CallReset _ hard quiet)).
Qed.

(** C5 as stated fails: [pretty] is a value option of [log], and its value
    is not an entry of its own. *)
Lemma pretty_is_one_token :
  log_args None None (Some "oneline") None = ["git"; "log"; "--pretty=oneline"]
  /\ ~ In "oneline" (log_args None None (Some "oneline") None)
  /\ forall token : string,
       log_args None None (Some "oneline") None
       <> ["git"; "log"] ++ with_value token "oneline".
Proof.
  split; [reflexivity|]. split.
  - cbn. intros [H|[H|[H|[]]]]; discriminate.
  - intros token. cbn. discriminate.
Qed.

(** ** format_patch: the list of patch files *)

Section FormatPatchFacts.

Context {P : Platform}.

(** On a zero exit [format_patch] returns the non-empty lines of the
    output, each one stripped; on any other exit it raises
    [GitException] with the status, the output and [None]. *)
Lemma format_patch_result (since : string) (w : World) :
  fst (format_patch since w)
  = match exec (fs w) (cwd w) (format_patch_args since) with
    | (_, returncode, stdout) =>
        if Z.eqb returncode 0
        then inr (map Py.strip (nonempty_lines stdout))
        else inl (GitException returncode stdout None)
    end.
Proof.
  run_cmd. run_exec. destruct (Z.eqb returncode 0); reflexivity.
Qed.

Lemma strip_trimmed_lines (stdout : string) :
  lines_trimmed stdout = true ->
  map Py.strip (nonempty_lines stdout) = nonempty_lines stdout.
Proof.
  unfold lines_trimmed, nonempty_lines. intros Htrim.
  rewrite forallb_forall in Htrim.
  rewrite <- (map_id (filter _ _)) at 2.
  apply map_ext_in. intros line Hin.
  apply filter_In in Hin as [Hin _].
  now apply String.eqb_eq, Htrim.
Qed.

Lemma trimmed_lines_not_blank (stdout : string) :
  lines_trimmed stdout = true ->
  Forall (fun name => Py.all_space name = false) (nonempty_lines stdout).
Proof.
  unfold lines_trimmed, nonempty_lines. intros Htrim.
  rewrite forallb_forall in Htrim.
  apply Forall_forall. intros line Hin.
  apply filter_In in Hin as [Hin Hline].
  destruct (Py.all_space line) eqn:Hspace; [|reflexivity].
  apply all_space_strip in Hspace.
  apply Htrim, String.eqb_eq in Hin.
  rewrite Hspace in Hin. subst line. discriminate.
Qed.

(** C6, as amended.  When the child process exits with status zero and
    no line of its output begins or ends with whitespace, [format_patch]
    returns the non-empty lines of the output, in order, and none of
    them is blank.  On the output made of the two lines [0001-a.patch]
    and [0002-b.patch] the list is those two names, and on the empty
    output it is empty. *)
Theorem format_patch_lines
    (since : string) (w : World) (fs' : FS) (stdout : string) :
  exec (fs w) (cwd w) (format_patch_args since) = (fs', 0%Z, stdout) ->
  lines_trimmed stdout = true ->
  fst (format_patch since w) = inr (nonempty_lines stdout)
  /\ Forall (fun name => Py.all_space name = false) (nonempty_lines stdout)
  /\ format_patch_filenames
       ("0001-a.patch" ++ LF ++ "0002-b.patch" ++ LF)%string
     = ["0001-a.patch"; "0002-b.patch"]
  /\ format_patch_filenames "" = [].
Proof.
  intros Hexec Htrim. repeat split.
  - rewrite format_patch_result, Hexec. cbn [Z.eqb].
    now rewrite strip_trimmed_lines.
  - now apply trimmed_lines_not_blank.
Qed.

End FormatPatchFacts.

(** C6 at the output of the specification's example. *)
Lemma format_patch_lines_witness :
  fst (format_patch "HEAD~2" Demo.start)
  = inr (nonempty_lines ("0001-a.patch" ++ LF ++ "0002-b.patch" ++ LF)%string)
  /\ Forall (fun name => Py.all_space name = false)
       (nonempty_lines ("0001-a.patch" ++ LF ++ "0002-b.patch" ++ LF)%string)
  /\ format_patch_filenames
       ("0001-a.patch" ++ LF ++ "0002-b.patch" ++ LF)%string
     = ["0001-a.patch"; "0002-b.patch"]
  /\ format_patch_filenames "" = [].
Proof.
  exact (@format_patch_lines Demo.platform "HEAD~2" Demo.start []
           ("0001-a.patch" ++ LF ++ "0002-b.patch" ++ LF)%string
           eq_refl eq_refl).
Defined.

(** C6 as stated fails: a line is returned stripped, not as it is, and a
    line of whitespace is returned as an empty entry. *)
Lemma format_patch_strips_lines :
  format_patch_filenames (" 0001-a.patch" ++ LF)%string = ["0001-a.patch"]
  /\ nonempty_lines (" 0001-a.patch" ++ LF)%string = [" 0001-a.patch"]
  /\ format_patch_filenames (" 0001-a.patch" ++ LF)%string
     <> nonempty_lines (" 0001-a.patch" ++ LF)%string
  /\ format_patch_filenames ("0001-a.patch" ++ LF ++ " " ++ LF)%string
     = ["0001-a.patch"; ""].
Proof.
  repeat split; discriminate.
Qed.

(** ** log *)

Section LogFacts.

Context {P : Platform}.

(** On a zero exit [log] returns the output as captured; on any other
    exit it raises [GitException]. *)
Lemma log_result (cmd_arg : option string) (count : option Z)
    (pretty : option string) (skip : option Z) (w : World) :
  fst (log cmd_arg count pretty skip w)
  = match exec (fs w) (cwd w) (log_args cmd_arg count pretty skip) with
    | (_, returncode, stdout) =>
        if Z.eqb returncode 0 then inr stdout
        else inl (GitException returncode stdout None)
    end.
Proof.
  run_cmd. run_exec. destruct (Z.eqb returncode 0); reflexivity.
Qed.

(** C7.  [log(count=3, pretty="oneline", skip=2)] builds the vector
    [git log --pretty=oneline -3 --skip=2], hands it to the child
    process, and when that exits with status zero returns its standard
    output as captured. *)
Theorem log_oneline_3_skip_2 (w : World) (fs' : FS) (stdout : string) :
  exec (fs w) (cwd w) ["git"; "log"; "--pretty=oneline"; "-3"; "--skip=2"]
  = (fs', 0%Z, stdout) ->
  log_args None (Some 3%Z) (Some "oneline") (Some 2%Z)
  = ["git"; "log"; "--pretty=oneline"; "-3"; "--skip=2"]
  /\ log None (Some 3%Z) (Some "oneline") (Some 2%Z) w
     = (inr stdout,
        mkWorld (cwd w) fs'
          (trace w ++ [EvSpawn (cwd w)
                         ["git"; "log"; "--pretty=oneline"; "-3";
                          "--skip=2"]])).
Proof.
  intros Hexec. split; [reflexivity|].
  run_cmd.
  change (log_args None (Some 3%Z) (Some "oneline") (Some 2%Z))
    with ["git"; "log"; "--pretty=oneline"; "-3"; "--skip=2"].
  rewrite Hexec. reflexivity.
Qed.

(** C10.  In [log] the vector is [git log] followed by what each option
    contributes, in the order [pretty], [count], [skip], [cmd_arg].
    [count] and [skip] are tested against [None]: every integer, 0
    included, contributes its token, so [count=0] adds [-0] and [skip=0]
    adds [--skip=0].  [pretty] and [cmd_arg] are tested for truth: a
    non-empty string contributes its token, and the empty string, like
    [None], contributes nothing. *)
Theorem log_presence_tests
    (cmd_arg : option string) (count : option Z) (pretty : option string)
    (skip : option Z) :
  log_args cmd_arg count pretty skip
  = ["git"; "log"]
      ++ match pretty with
         | Some (String a p) => [("--pretty=" ++ String a p)%string]
         | Some EmptyString | None => []
         end
      ++ match count with
         | Some n => [("-" ++ Py.format_d n)%string]
         | None => []
         end
      ++ match skip with
         | Some n => [("--skip=" ++ Py.format_d n)%string]
         | None => []
         end
      ++ match cmd_arg with
         | Some (String a p) => [String a p]
         | Some EmptyString | None => []
         end
  /\ Py.format_d 0 = "0"
  /\ (In "-0" (log_args cmd_arg (Some 0%Z) pretty skip)
      /\ length (log_args cmd_arg (Some 0%Z) pretty skip)
         = S (length (log_args cmd_arg None pretty skip)))
  /\ (In "--skip=0" (log_args cmd_arg count pretty (Some 0%Z))
      /\ length (log_args cmd_arg count pretty (Some 0%Z))
         = S (length (log_args cmd_arg count pretty None)))
  /\ log_args cmd_arg count (Some "") skip
     = log_args cmd_arg count None skip
  /\ log_args (Some "") count pretty skip
     = log_args None count pretty skip.
Proof.
  split.
  { destruct pretty as [[|a p]|], count, skip, cmd_arg as [[|b q]|];
      reflexivity. }
  split; [reflexivity|].
  rewrite !(argv_layout (CallLog _ _ _ _) : log_args _ _ _ _ = _).
  unfold layout. cbn [positionals_first flags positionals subcommand].
  repeat split.
  - cbn [if_given joined]. right; right.
    rewrite !in_app_iff. left; right; left. now left.
  - cbn [length if_given]. rewrite !length_app. unfold joined.
    cbn [length]. lia.
  - cbn [if_given joined]. right; right.
    rewrite !in_app_iff. left; right; right. now left.
  - cbn [length if_given]. rewrite !length_app. unfold joined.
    cbn [length]. lia.
Qed.

End LogFacts.

(** C7 on the demonstration platform, whose [git log] prints a line
    followed by a line of one space: the output comes back untouched. *)
Lemma log_oneline_3_skip_2_witness :
  log_args None (Some 3%Z) (Some "oneline") (Some 2%Z)
  = ["git"; "log"; "--pretty=oneline"; "-3"; "--skip=2"]
  /\ log None (Some 3%Z) (Some "oneline") (Some 2%Z) Demo.start
     = (inr ("1f3a first" ++ LF ++ " " ++ LF)%string,
        @mkWorld Demo.platform "/repo/docs" []
          [EvSpawn "/repo/docs"
             ["git"; "log"; "--pretty=oneline"; "-3"; "--skip=2"]]).
Proof.
  exact (@log_oneline_3_skip_2 Demo.platform Demo.start []
           ("1f3a first" ++ LF ++ " " ++ LF)%string eq_refl).
Defined.

(** ** commit: the message *)

(** C8.  With [msg] absent the vector is [git commit] followed by what the
    other options contribute, and nothing stands for the message; with
    [msg] present the two entries [-m] and the message are added right
    after [git commit].  The string [-m] can then only be met in the
    vector without a message as the value handed to [-C]. *)
Theorem commit_message_flag
    (m : string) (all amend : bool) (use_commit_object : option string)
    (quiet : bool) :
  commit_args None all amend use_commit_object quiet
  = "git" :: "commit" ::
      flags (CallCommit None all amend use_commit_object quiet)
  /\ commit_args (Some m) all amend use_commit_object quiet
     = "git" :: "commit" :: "-m" :: m ::
         flags (CallCommit None all amend use_commit_object quiet)
  /\ (In "-m" (commit_args None all amend use_commit_object quiet)
      <-> use_commit_object = Some "-m").
Proof.
  split; [|split].
  - destruct all, amend, use_commit_object as [[|a s]|], quiet; reflexivity.
  - destruct all, amend, use_commit_object as [[|a s]|], quiet; reflexivity.
  - split.
    + destruct all, amend, use_commit_object as [[|a s]|], quiet; cbn;
        intros H; repeat (destruct H as [H|H]; try discriminate H);
        try contradiction; now rewrite H.
    + intros ->. destruct all, amend, quiet; cbn; tauto.
Qed.

(** ** Repo: the stored path *)

(** No piece of a split holds the separator. *)
Lemma split_pieces_no_sep (a : ascii) (s : string) :
  Forall (fun piece => contains a piece = false) (Py.split a s).
Proof.
  induction s as [|c s IH]; cbn [Py.split].
  - repeat constructor.
  - destruct (Ascii.eqb c a) eqn:Hc.
    + constructor; [reflexivity | exact IH].
    + destruct (Py.split a s) as [|piece pieces].
      * constructor; [|constructor]. cbn. now rewrite Hc.
      * inversion IH as [|? ? Hpiece Hpieces]; subst.
        constructor; [|exact Hpieces]. cbn. now rewrite Hc.
Qed.

Lemma Forall_removelast {A : Type} (Q : A -> Prop) (l : list A) :
  Forall Q l -> Forall Q (removelast l).
Proof.
  induction 1 as [|x l Hx Hl IH]; cbn; [constructor|].
  destruct l; [constructor | now constructor].
Qed.

Lemma proper_last_not_dotdot (comps : list string) :
  Forall proper comps -> Posixpath.last_is_dotdot comps = false.
Proof.
  intros Hall. destruct comps as [|comp comps]; [reflexivity|].
  unfold Posixpath.last_is_dotdot.
  assert (Hin : In (last (comp :: comps) EmptyString) (comp :: comps)).
  { destruct (exists_last (l := comp :: comps)) as (l' & x & Heq);
      [discriminate|].
    rewrite Heq, last_last, in_app_iff. right. now left. }
  rewrite Forall_forall in Hall. destruct (Hall _ Hin) as (_ & _ & Hdd & _).
  now apply String.eqb_neq.
Qed.

(** The loop of [normpath] over an absolute path keeps only names. *)
Lemma normpath_loop_proper (slashes : nat) (comps acc : list string) :
  slashes <> 0 ->
  Forall (fun comp => contains Posixpath.sep comp = false) comps ->
  Forall proper acc ->
  Forall proper (fold_left (Posixpath.step slashes) comps acc).
Proof.
  intros Hslashes. revert acc.
  induction comps as [|comp comps IH]; intros acc Hcomps Hacc; [exact Hacc|].
  inversion Hcomps as [|? ? Hcomp Hrest]; subst.
  cbn [fold_left]. apply IH; [exact Hrest|].
  unfold Posixpath.step.
  destruct (String.eqb_spec comp ""); [exact Hacc|].
  destruct (String.eqb_spec comp "."); [exact Hacc|].
  cbn [orb].
  destruct (String.eqb_spec comp ".."); cbn [negb orb].
  - apply Nat.eqb_neq in Hslashes. rewrite Hslashes. cbn [andb orb].
    rewrite proper_last_not_dotdot by assumption.
    now apply Forall_removelast.
  - apply Forall_app. split; [exact Hacc|].
    constructor; [|constructor]. repeat split; assumption.
Qed.

Lemma isabs_initial_slashes (s : string) :
  Posixpath.isabs s = true ->
  Posixpath.initial_slashes s = 1 \/ Posixpath.initial_slashes s = 2.
Proof.
  destruct s as [|c1 [|c2 [|c3 s]]]; cbn; try discriminate;
    intros ->; try destruct (Ascii.eqb c2 Posixpath.sep);
    try destruct (Ascii.eqb c3 Posixpath.sep); cbn; auto.
Qed.

(** [normpath] of an absolute path: one or two slashes, then names
    separated by single slashes. *)
Lemma normpath_absolute (s : string) :
  Posixpath.isabs s = true ->
  exists k comps,
    (k = 1 \/ k = 2)
    /\ Posixpath.normpath s
       = (Posixpath.slashes_string k ++ Posixpath.join_sep comps)%string
    /\ Forall proper comps.
Proof.
  intros Habs.
  exists (Posixpath.initial_slashes s),
    (fold_left (Posixpath.step (Posixpath.initial_slashes s))
       (Py.split Posixpath.sep s) []).
  pose proof (isabs_initial_slashes s Habs) as Hk.
  split; [exact Hk|]. split.
  - unfold Posixpath.normpath.
    destruct s as [|c s]; [discriminate|]. cbn [Py.truthy negb].
    destruct Hk as [-> | ->]; reflexivity.
  - apply normpath_loop_proper.
    + destruct Hk as [-> | ->]; discriminate.
    + apply split_pieces_no_sep.
    + constructor.
Qed.

Lemma join_absolute (cwd p : string) :
  Posixpath.isabs cwd = true ->
  Posixpath.isabs p = false ->
  Posixpath.isabs (Posixpath.join cwd p) = true.
Proof.
  intros Hcwd Hp. unfold Posixpath.join. rewrite Hp.
  destruct cwd as [|c cwd]; [discriminate|].
  destruct (negb _ || _); exact Hcwd.
Qed.

(** What [os.path.abspath] returns in a process whose directory is
    absolute, as [os.getcwd] gives it: an absolute, normalised path. *)
Lemma abspath_absolute (cwd p : string) :
  Posixpath.isabs cwd = true ->
  Posixpath.isabs (Posixpath.abspath cwd p) = true
  /\ exists k comps,
       (k = 1 \/ k = 2)
       /\ Posixpath.abspath cwd p
          = (Posixpath.slashes_string k ++ Posixpath.join_sep comps)%string
       /\ Forall proper comps.
Proof.
  intros Hcwd. unfold Posixpath.abspath.
  assert (Habs : Posixpath.isabs
                   (if Posixpath.isabs p then p else Posixpath.join cwd p)
                 = true).
  { destruct (Posixpath.isabs p) eqn:Hp; [exact Hp|].
    now apply join_absolute. }
  destruct (normpath_absolute _ Habs) as (k & comps & Hk & Heq & Hall).
  split; [|now exists k, comps].
  rewrite Heq. destruct Hk as [-> | ->]; reflexivity.
Qed.

Section RepoPathFacts.

Context {P : Platform}.

(** Every later call through a [Repo] whose caller's directory can be
    read switches to the stored path, resolves no path, and spawns its
    process nowhere else. *)
Lemma Repo_call_uses_path (self : Repo) (c : Call) (w : World) :
  can_enter (fs w) (cwd w) = true ->
  exists evs,
    trace (snd (Repo_call self c w))
    = trace w ++ EvGetcwd :: EvChdir (path self) :: evs
    /\ Forall (made_inside (path self)) evs.
Proof.
  intros Hcwd. unfold Repo_call, with_temporary_chdir.
  rewrite Repo_chdir_cases, Hcwd.
  destruct (can_enter (fs w) (path self)).
  - cbv zeta.
    set (inside := mkWorld (path self) (fs w) _).
    pose proof (call_events c inside) as Hevents.
    destruct (call c inside) as [outcome w2]. cbn [fst snd] in *.
    destruct (can_enter (fs w2) (cwd w)); cbn [snd trace];
      destruct Hevents as [-> | ->]; subst inside; cbn [trace cwd];
      eexists; (split;
                [rewrite <- ?app_assoc; cbn [app]; reflexivity
                | repeat constructor]).
  - cbn [snd trace]. exists []. split; [reflexivity | constructor].
Qed.

(** C9, as amended.  In a process whose working directory is absolute
    (as [os.getcwd] gives it) and, for a relative path, can be read,
    constructing a [Repo] calls [os.path.abspath] on the given path once
    and stores the result: an absolute, normalised path (one or two
    slashes, then names that are neither empty nor [.] nor [..],
    separated by single slashes), computed from the two strings alone.
    Construction does nothing else to the world than that call and, for
    a relative path, the [os.getcwd] inside it.  Every later call through
    the [Repo], from whatever readable directory and in whatever state,
    switches to that stored path, resolves no path again, and spawns its
    process nowhere else. *)
Theorem Repo_init_resolves_once (p : string) (w : World) :
  Posixpath.isabs (cwd w) = true ->
  Posixpath.isabs p || can_enter (fs w) (cwd w) = true ->
  exists self : Repo,
    Repo_init p w
    = (inr self,
       mkWorld (cwd w) (fs w)
         (trace w ++ EvAbspath p
                       :: (if Posixpath.isabs p then [] else [EvGetcwd])))
    /\ path self = Posixpath.abspath (cwd w) p
    /\ Posixpath.isabs (path self) = true
    /\ (exists k comps,
          (k = 1 \/ k = 2)
          /\ path self
             = (Posixpath.slashes_string k
                  ++ Posixpath.join_sep comps)%string
          /\ Forall proper comps)
    /\ forall (c : Call) (w1 : World),
         can_enter (fs w1) (cwd w1) = true ->
         exists evs,
           trace (snd (Repo_call self c w1))
           = trace w1 ++ EvGetcwd :: EvChdir (path self) :: evs
           /\ Forall (made_inside (path self)) evs.
Proof.
  intros Hcwd Hread.
  exists (mkRepo (Posixpath.abspath (cwd w) p)).
  destruct (abspath_absolute (cwd w) p Hcwd) as [Habs Hform].
  split; [|split; [reflexivity|split; [exact Habs|split; [exact Hform|]]]].
  - unfold Repo_init, Posixpath.abspath. run_cmd.
    destruct (Posixpath.isabs p); cbn [orb] in Hread.
    + reflexivity.
    + cbv beta zeta. cbn [fst snd cwd fs trace].
      unfold os_getcwd, record. cbn [fst snd cwd fs trace].
      rewrite Hread. now rewrite <- app_assoc.
  - intros c w1 Hcwd1. now apply Repo_call_uses_path.
Qed.

End RepoPathFacts.

(** C9 for a relative path given in [/repo/docs]. *)
Lemma Repo_init_resolves_once_witness :
  exists self : Repo,
    Repo_init "proj/../repo" Demo.start
    = (inr self,
       @mkWorld Demo.platform "/repo/docs" []
         [EvAbspath "proj/../repo"; EvGetcwd])
    /\ path self = "/repo/docs/repo".
Proof.
  destruct (@Repo_init_resolves_once Demo.platform "proj/../repo"
              Demo.start eq_refl eq_refl) as (self & Hinit & Hpath & _).
  exists self. split; [exact Hinit | exact Hpath].
Defined.

(** C9 as stated fails: the stored path is not canonical.  Where
    [/srv/link] is a symbolic link to [/srv/real], a [Repo] made for
    [/srv/link] stores [/srv/link], the link itself. *)
Lemma Repo_init_keeps_symlink :
  Repo_init "/srv/link" Demo.start
  = (inr (mkRepo "/srv/link"),
     @mkWorld Demo.platform "/repo/docs" [] [EvAbspath "/srv/link"])
  /\ names_link [("/srv/link", "/srv/real")] "/srv/link" = true
  /\ path (mkRepo "/srv/link") <> "/srv/real".
Proof.
  repeat split. discriminate.
Qed.


(** ** Exit statuses of the other commands *)

Section OutcomeFacts.

Context {P : Platform}.

Lemma spawned_app (t1 t2 : list Event) :
  spawned (t1 ++ t2) = spawned t1 ++ spawned t2.
Proof.
  induction t1 as [|e t1 IH]; [reflexivity|].
  destruct e; cbn; now rewrite IH.
Qed.

(** What a command gives does not depend on the calls recorded so far,
    and a valid command leaves the world its one process leaves. *)
Lemma call_run (c : Call) (w : World) :
  call c w
  = (fst (call c (mkWorld (cwd w) (fs w) [])),
     if valid c
     then mkWorld (cwd w) (fst (fst (exec (fs w) (cwd w) (argv c))))
            (trace w ++ [EvSpawn (cwd w) (argv c)])
     else w).
Proof.
  destruct c; unfold call, argv; cbn [valid]; run_cmd;
    try (destruct (create && create_and_reset); cbn [negb];
         [reflexivity|]);
    cbv beta; cbn [fst snd cwd fs trace];
    run_exec; destruct (Z.eqb returncode 0); reflexivity.
Qed.

(** [add], [checkout], [commit], [init] and [reset] return [None] when
    their process exits with status zero and let [CalledProcessError]
    through otherwise, with the status and the whole argument vector. *)
Theorem plain_command_outcome (c : Call) (w : World) :
  plain c = true ->
  valid c = true ->
  call c w
  = match exec (fs w) (cwd w) (argv c) with
    | (fs', returncode, _) =>
        (if Z.eqb returncode 0 then inr VNone
         else inl (CalledProcessError returncode (argv c)),
         mkWorld (cwd w) fs' (trace w ++ [EvSpawn (cwd w) (argv c)]))
    end.
Proof.
  intros Hplain Hvalid.
  destruct c; try discriminate Hplain; unfold call, argv;
    cbn [valid] in Hvalid; run_cmd;
    try (destruct (create && create_and_reset); [discriminate|]);
    run_exec; destruct (Z.eqb returncode 0); reflexivity.
Qed.

(** [format_patch] and [log] raise [GitException] on every non-zero
    exit, with the status and the captured output; the third component,
    standard error, is always [None], because only standard output is
    piped. *)
Theorem capturing_command_failure
    (c : Call) (w : World) (fs' : FS) (returncode : Z) (out : string) :
  capturing c = true ->
  exec (fs w) (cwd w) (argv c) = (fs', returncode, out) ->
  returncode <> 0%Z ->
  call c w
  = (inl (GitException returncode out None),
     mkWorld (cwd w) fs' (trace w ++ [EvSpawn (cwd w) (argv c)])).
Proof.
  intros Hcap Hexec Hrc. apply Z.eqb_neq in Hrc.
  destruct c; try discriminate Hcap; unfold call, argv in *; run_cmd;
    rewrite Hexec; cbn [fst snd]; rewrite Hrc; reflexivity.
Qed.

End OutcomeFacts.

(** [add] on the demonstration platform, where it succeeds. *)
Lemma plain_command_outcome_witness :
  call (CallAdd "README") Demo.start
  = (inr VNone,
     @mkWorld Demo.platform "/repo/docs" []
       [EvSpawn "/repo/docs" ["git"; "add"; "README"]]).
Proof.
  exact (@plain_command_outcome Demo.platform (CallAdd "README") Demo.start
           eq_refl eq_refl).
Defined.

(** [log] where git fails: the status and the complaint come back in the
    exception, and nothing for standard error. *)
Lemma capturing_command_failure_witness :
  call (CallLog None (Some 1%Z) None None) Broken.start
  = (inl (GitException 128 ("fatal: not a git repository" ++ LF)%string None),
     @mkWorld Broken.platform "/home" tt
       [EvSpawn "/home" ["git"; "log"; "-1"]]).
Proof.
  refine (@capturing_command_failure Broken.platform
            (CallLog None (Some 1%Z) None None) Broken.start tt 128%Z
            ("fatal: not a git repository" ++ LF)%string
            eq_refl eq_refl _).
  discriminate.
Defined.

(** ** What a call through a Repo does to the world *)

Section RepoEffects.

Context {P : Platform}.

(** The four ways a [Repo] call can go, read off [Repo.chdir]. *)
Lemma Repo_call_cases (self : Repo) (c : Call) (w : World) :
  Repo_call self c w
  = if can_enter (fs w) (cwd w)
    then
      if can_enter (fs w) (path self)
      then
        let r := call c (mkWorld (path self) (fs w)
                           (trace w ++ [EvGetcwd; EvChdir (path self)])) in
        if can_enter (fs (snd r)) (cwd w)
        then (fst r,
              mkWorld (cwd w) (fs (snd r))
                (trace (snd r) ++ [EvChdir (cwd w)]))
        else (inl (OSError (cwd w)),
              mkWorld (cwd (snd r)) (fs (snd r))
                (trace (snd r) ++ [EvChdir (cwd w)]))
      else (inl (OSError (path self)),
            mkWorld (cwd w) (fs w)
              (trace w ++ [EvGetcwd; EvChdir (path self)]))
    else (inl (OSError EmptyString),
          mkWorld (cwd w) (fs w) (trace w ++ [EvGetcwd])).
Proof.
  unfold Repo_call, with_temporary_chdir. apply Repo_chdir_cases.
Qed.

(** The world a valid command leaves when run inside the repository. *)
Lemma Repo_call_inside (self : Repo) (c : Call) (w : World) :
  valid c = true ->
  snd (call c (mkWorld (path self) (fs w)
                 (trace w ++ [EvGetcwd; EvChdir (path self)])))
  = mkWorld (path self)
      (fst (fst (exec (fs w) (path self) (argv c))))
      (trace w ++ [EvGetcwd; EvChdir (path self);
                   EvSpawn (path self) (argv c)]).
Proof.
  intros Hvalid. rewrite call_run, Hvalid. cbn [snd cwd fs trace].
  now rewrite <- app_assoc.
Qed.

(** The world after a valid call with the repository and the way back
    both open. *)
Lemma Repo_call_open_world
    (self : Repo) (c : Call) (w : World) (fs' : FS) (returncode : Z)
    (out : string) :
  can_enter (fs w) (cwd w) = true ->
  valid c = true ->
  can_enter (fs w) (path self) = true ->
  exec (fs w) (path self) (argv c) = (fs', returncode, out) ->
  can_enter fs' (cwd w) = true ->
  snd (Repo_call self c w)
  = mkWorld (cwd w) fs'
      (trace w ++ [EvGetcwd; EvChdir (path self);
                   EvSpawn (path self) (argv c); EvChdir (cwd w)]).
Proof.
  intros Hcwd Hvalid Henter Hexec Hback.
  rewrite Repo_call_cases, Hcwd, Henter. cbv zeta.
  rewrite Repo_call_inside by assumption.
  rewrite Hexec. cbn [fst snd cwd fs trace]. rewrite Hback.
  cbn [snd]. now rewrite <- app_assoc.
Qed.

(** A [Repo] whose directory cannot be entered, called from a directory
    that can be read: the call raises the [OSError] of [os.chdir], the
    command is not run, and directory and file system stay as they
    were. *)
Theorem Repo_call_unreachable (self : Repo) (c : Call) (w : World) :
  can_enter (fs w) (cwd w) = true ->
  can_enter (fs w) (path self) = false ->
  Repo_call self c w
  = (inl (OSError (path self)),
     mkWorld (cwd w) (fs w) (trace w ++ [EvGetcwd; EvChdir (path self)])).
Proof.
  intros Hcwd Henter. now rewrite Repo_call_cases, Hcwd, Henter.
Qed.

(** A [Repo] call from a directory that can be read, with the repository
    and the way back both open: the caller gets exactly what the bare command gives when started in the
    repository's directory, one process has run there, on the file system
    as it was, and the process is back where it started. *)
Theorem Repo_call_runs_inside
    (self : Repo) (c : Call) (w : World) (fs' : FS) (returncode : Z)
    (out : string) :
  can_enter (fs w) (cwd w) = true ->
  valid c = true ->
  can_enter (fs w) (path self) = true ->
  exec (fs w) (path self) (argv c) = (fs', returncode, out) ->
  can_enter fs' (cwd w) = true ->
  Repo_call self c w
  = (fst (call c (mkWorld (path self) (fs w) [])),
     mkWorld (cwd w) fs'
       (trace w ++ [EvGetcwd; EvChdir (path self);
                    EvSpawn (path self) (argv c); EvChdir (cwd w)])).
Proof.
  intros Hcwd Hvalid Henter Hexec Hback.
  rewrite Repo_call_cases, Hcwd, Henter. cbv zeta.
  rewrite Repo_call_inside by assumption.
  rewrite Hexec. cbn [fst snd cwd fs trace]. rewrite Hback.
  rewrite call_run. cbn [fst cwd fs].
  now rewrite <- app_assoc.
Qed.

(** When the command, started from a directory that could be read, has
    made that directory impossible to enter, the [OSError] of the [os.chdir] back is all the caller gets:
    the command's value or exception is lost, and the process stays in
    the repository's directory. *)
Theorem Repo_call_way_back_closed
    (self : Repo) (c : Call) (w : World) (fs' : FS) (returncode : Z)
    (out : string) :
  can_enter (fs w) (cwd w) = true ->
  valid c = true ->
  can_enter (fs w) (path self) = true ->
  exec (fs w) (path self) (argv c) = (fs', returncode, out) ->
  can_enter fs' (cwd w) = false ->
  Repo_call self c w
  = (inl (OSError (cwd w)),
     mkWorld (path self) fs'
       (trace w ++ [EvGetcwd; EvChdir (path self);
                    EvSpawn (path self) (argv c); EvChdir (cwd w)])).
Proof.
  intros Hcwd Hvalid Henter Hexec Hback.
  rewrite Repo_call_cases, Hcwd, Henter. cbv zeta.
  rewrite Repo_call_inside by assumption.
  rewrite Hexec. cbn [fst snd cwd fs trace]. rewrite Hback.
  now rewrite <- app_assoc.
Qed.

(** A caller whose own directory is gone: [os.getcwd] raises before
    anything else, so no directory is entered, the command is not run, and
    directory and file system stay as they were, whether or not the
    repository could have been entered. *)
Theorem Repo_call_cwd_gone (self : Repo) (c : Call) (w : World) :
  can_enter (fs w) (cwd w) = false ->
  Repo_call self c w
  = (inl (OSError EmptyString),
     mkWorld (cwd w) (fs w) (trace w ++ [EvGetcwd])).
Proof.
  intros Hcwd. now rewrite Repo_call_cases, Hcwd.
Qed.

(** No retry, no second process: a call through a [Repo] runs one
    process, in the repository's directory and with the vector of the
    call, when the caller's directory can be read, the repository can be
    entered and the options are valid, and none otherwise. *)
Theorem Repo_call_spawned (self : Repo) (c : Call) (w : World) :
  spawned (trace (snd (Repo_call self c w)))
  = spawned (trace w)
      ++ (if can_enter (fs w) (cwd w) && can_enter (fs w) (path self)
             && valid c
          then [(path self, argv c)] else []).
Proof.
  rewrite Repo_call_cases.
  destruct (can_enter (fs w) (cwd w)); cbn [andb];
    [destruct (can_enter (fs w) (path self)); cbn [andb]|].
  - cbv zeta. rewrite call_run. cbn [fst snd cwd fs trace].
    destruct (valid c); cbn [fst snd cwd fs trace];
      match goal with
      | |- context [if ?b then _ else _] => destruct b
      end; cbn [fst snd cwd fs trace];
      rewrite !spawned_app; cbn [spawned app];
      now rewrite ?app_nil_r.
  - cbn [snd trace]. rewrite spawned_app. reflexivity.
  - cbn [snd trace]. rewrite spawned_app. reflexivity.
Qed.

(** [Repo.chdir] around any body, also one that changes the directory
    itself: whatever the body does or raises, the process ends in the
    directory it started in, provided that directory can still be
    entered. *)
Theorem Repo_chdir_restores
    {A : Type} (self : Repo) (body : M A) (w : World)
    (outcome : exn + A) (w' : World) :
  Repo_chdir self body w = (outcome, w') ->
  can_enter (fs w') (cwd w) = true ->
  cwd w' = cwd w.
Proof.
  rewrite Repo_chdir_cases.
  destruct (can_enter (fs w) (cwd w));
    [destruct (can_enter (fs w) (path self))|].
  - cbv zeta. destruct (body _) as [result w1]. cbn [fst snd].
    destruct (can_enter (fs w1) (cwd w)) eqn:Hback;
      intros Heq Hok; injection Heq as _ <-; cbn in *;
      [reflexivity | congruence].
  - intros Heq _. injection Heq as _ <-. reflexivity.
  - intros Heq _. injection Heq as _ <-. reflexivity.
Qed.

(** Two calls in a row through the same [Repo], from a directory that can
    be read: both processes run in the
    repository's directory, the second on the file system the first one
    left, and the caller's directory is the same before, between and
    after. *)
Theorem Repo_call_twice
    (self : Repo) (c1 c2 : Call) (w : World) (fs1 fs2 : FS)
    (returncode1 returncode2 : Z) (out1 out2 : string) :
  can_enter (fs w) (cwd w) = true ->
  valid c1 = true ->
  valid c2 = true ->
  can_enter (fs w) (path self) = true ->
  exec (fs w) (path self) (argv c1) = (fs1, returncode1, out1) ->
  can_enter fs1 (cwd w) = true ->
  can_enter fs1 (path self) = true ->
  exec fs1 (path self) (argv c2) = (fs2, returncode2, out2) ->
  can_enter fs2 (cwd w) = true ->
  let w1 := snd (Repo_call self c1 w) in
  let w2 := snd (Repo_call self c2 w1) in
  cwd w1 = cwd w /\ cwd w2 = cwd w /\ fs w2 = fs2
  /\ spawned (trace w2)
     = spawned (trace w) ++ [(path self, argv c1); (path self, argv c2)].
Proof.
  intros Hcwd Hv1 Hv2 He1 Hx1 Hb1 He2 Hx2 Hb2. cbv zeta.
  rewrite (Repo_call_open_world self c1 w fs1 returncode1 out1)
    by assumption.
  set (w1 := mkWorld (cwd w) fs1 _).
  rewrite (Repo_call_open_world self c2 w1 fs2 returncode2 out2)
    by assumption.
  subst w1. cbn [cwd fs trace]. repeat split.
  rewrite !spawned_app. cbn [spawned]. now rewrite <- app_assoc.
Qed.

End RepoEffects.

(** The caller stands in [/repo/docs], which has been removed; the
    repository is there. *)
Lemma Repo_call_cwd_gone_witness :
  Repo_call Demo.repo (CallAdd "README")
    (@mkWorld Demo.platform "/repo/docs" ["/repo/docs"] [])
  = (inl (OSError ""),
     @mkWorld Demo.platform "/repo/docs" ["/repo/docs"] [EvGetcwd]).
Proof.
  exact (@Repo_call_cwd_gone Demo.platform Demo.repo (CallAdd "README")
           (@mkWorld Demo.platform "/repo/docs" ["/repo/docs"] []) eq_refl).
Defined.

(** The repository has been removed: [add] is not run. *)
Lemma Repo_call_unreachable_witness :
  Repo_call Demo.repo (CallAdd "README")
    (@mkWorld Demo.platform "/home" ["/repo"] [])
  = (inl (OSError "/repo"),
     @mkWorld Demo.platform "/home" ["/repo"] [EvGetcwd; EvChdir "/repo"]).
Proof.
  exact (@Repo_call_unreachable Demo.platform Demo.repo (CallAdd "README")
           (@mkWorld Demo.platform "/home" ["/repo"] []) eq_refl eq_refl).
Defined.

(** [am] through the repository, rejected by git. *)
Lemma Repo_call_runs_inside_witness :
  Repo_call Demo.repo (CallAm ["0001-a.patch"] false false true) Demo.start
  = (fst (call (CallAm ["0001-a.patch"] false false true)
            (@mkWorld Demo.platform "/repo" [] [])),
     @mkWorld Demo.platform "/repo/docs" []
       [EvGetcwd; EvChdir "/repo";
        EvSpawn "/repo" ["git"; "am"; "0001-a.patch"; "-q"];
        EvChdir "/repo/docs"]).
Proof.
  exact (@Repo_call_runs_inside Demo.platform Demo.repo
           (CallAm ["0001-a.patch"] false false true) Demo.start
           [] 128%Z "" eq_refl eq_refl eq_refl eq_refl eq_refl).
Defined.

(** The checkout that removes the caller's directory succeeds, and the
    caller is told only that the directory is gone. *)
Lemma Repo_call_way_back_closed_witness :
  Repo_call Demo.repo (CallCheckout "topic" false false) Demo.start
  = (inl (OSError "/repo/docs"),
     @mkWorld Demo.platform "/repo" ["/repo/docs"]
       [EvGetcwd; EvChdir "/repo";
        EvSpawn "/repo" ["git"; "checkout"; "topic"];
        EvChdir "/repo/docs"]).
Proof.
  exact (@Repo_call_way_back_closed Demo.platform Demo.repo
           (CallCheckout "topic" false false) Demo.start
           ["/repo/docs"] 0%Z "" eq_refl eq_refl eq_refl eq_refl eq_refl).
Defined.

(** A body that itself moves to [/tmp]. *)
Lemma Repo_chdir_restores_witness :
  cwd (snd (Repo_chdir Demo.repo (@os_chdir Demo.platform "/tmp")
              Demo.start))
  = "/repo/docs".
Proof.
  eapply (@Repo_chdir_restores Demo.platform unit Demo.repo
            (@os_chdir Demo.platform "/tmp") Demo.start).
  - apply surjective_pairing.
  - reflexivity.
Defined.

(** [add] and then [commit] through the same repository. *)
Lemma Repo_call_twice_witness :
  cwd (snd (Repo_call Demo.repo (CallAdd "README") Demo.start))
  = "/repo/docs"
  /\ cwd (snd (Repo_call Demo.repo
                 (CallCommit (Some "x") false false None false)
                 (snd (Repo_call Demo.repo (CallAdd "README") Demo.start))))
     = "/repo/docs"
  /\ fs (snd (Repo_call Demo.repo
                (CallCommit (Some "x") false false None false)
                (snd (Repo_call Demo.repo (CallAdd "README") Demo.start))))
     = []
  /\ spawned
       (trace (snd (Repo_call Demo.repo
                      (CallCommit (Some "x") false false None false)
                      (snd (Repo_call Demo.repo (CallAdd "README")
                              Demo.start)))))
     = [("/repo", ["git"; "add"; "README"]);
        ("/repo", ["git"; "commit"; "-m"; "x"])].
Proof.
  exact (@Repo_call_twice Demo.platform Demo.repo (CallAdd "README")
           (CallCommit (Some "x") false false None false) Demo.start
           [] [] 0%Z 0%Z "" "" eq_refl eq_refl eq_refl eq_refl eq_refl
           eq_refl eq_refl eq_refl eq_refl).
Defined.

(** ** The lines format_patch returns *)

Lemma split_not_nil (sep : ascii) (s : string) : Py.split sep s <> [].
Proof.
  destruct s as [|c s]; cbn; [discriminate|].
  destruct (Ascii.eqb c sep); [discriminate|].
  destruct (Py.split sep s); discriminate.
Qed.

(** No piece of a split at line feeds holds a line feed. *)
Lemma split_pieces_one_line (s : string) :
  Forall (fun piece => has_nl piece = false) (Py.split Py.nl s).
Proof.
  induction s as [|c s IH]; cbn [Py.split].
  - repeat constructor.
  - destruct (Ascii.eqb c Py.nl) eqn:Hc.
    + constructor; [reflexivity | exact IH].
    + destruct (Py.split Py.nl s) as [|piece pieces].
      * constructor; [|constructor]. cbn. now rewrite Hc.
      * inversion IH as [|? ? Hpiece Hpieces]; subst.
        constructor; [|exact Hpieces]. cbn. now rewrite Hc.
Qed.

Lemma lstrip_one_line (s : string) :
  has_nl s = false -> has_nl (Py.lstrip s) = false.
Proof.
  induction s as [|c s IH]; cbn; [easy|].
  intros H. apply orb_false_iff in H as [Hc Hs].
  destruct (Py.is_space c); [now apply IH|]. cbn. now rewrite Hc, Hs.
Qed.

Lemma rstrip_one_line (s : string) :
  has_nl s = false -> has_nl (Py.rstrip s) = false.
Proof.
  induction s as [|c s IH]; cbn; [easy|].
  intros H. apply orb_false_iff in H as [Hc Hs].
  specialize (IH Hs).
  destruct (Py.rstrip s) as [|k kept].
  - destruct (Py.is_space c); cbn; [reflexivity | now rewrite Hc].
  - cbn [has_nl] in *. now rewrite Hc, IH.
Qed.

Lemma lstrip_idempotent (s : string) :
  Py.lstrip (Py.lstrip s) = Py.lstrip s.
Proof.
  induction s as [|c s IH]; cbn; [reflexivity|].
  destruct (Py.is_space c) eqn:Hc; [exact IH|]. cbn. now rewrite Hc.
Qed.

Lemma rstrip_idempotent (s : string) :
  Py.rstrip (Py.rstrip s) = Py.rstrip s.
Proof.
  induction s as [|c s IH]; cbn; [reflexivity|].
  destruct (Py.rstrip s) as [|k kept] eqn:Hs.
  - destruct (Py.is_space c) eqn:Hc; cbn; [reflexivity | now rewrite Hc].
  - cbn [Py.rstrip] in *. now rewrite IH.
Qed.

(** Stripping on the left and on the right can be done in either order. *)
Lemma lstrip_rstrip (s : string) :
  Py.lstrip (Py.rstrip s) = Py.rstrip (Py.lstrip s).
Proof.
  induction s as [|c s IH]; [reflexivity|].
  cbn [Py.lstrip Py.rstrip].
  destruct (Py.is_space c) eqn:Hc.
  - rewrite <- IH. destruct (Py.rstrip s) as [|k kept]; [reflexivity|].
    cbn [Py.lstrip]. now rewrite Hc.
  - cbn [Py.rstrip].
    destruct (Py.rstrip s) as [|k kept]; cbn [Py.lstrip]; now rewrite Hc.
Qed.

Lemma strip_idempotent (s : string) : Py.strip (Py.strip s) = Py.strip s.
Proof.
  unfold Py.strip.
  now rewrite <- lstrip_rstrip, rstrip_idempotent, lstrip_rstrip,
    lstrip_idempotent.
Qed.

(** Whatever the process printed, and whether or not the lines were
    printed with whitespace around them, every entry [format_patch]
    returns is on one line and has no whitespace at either end. *)
Theorem format_patch_entries_stripped (stdout : string) :
  Forall (fun name => has_nl name = false /\ Py.strip name = name)
         (format_patch_filenames stdout).
Proof.
  unfold format_patch_filenames.
  apply Forall_map, Forall_forall. intros line Hin.
  apply filter_In in Hin as [Hin _].
  pose proof (split_pieces_one_line stdout) as Hlines.
  rewrite Forall_forall in Hlines. specialize (Hlines line Hin).
  split.
  - unfold Py.strip. now apply rstrip_one_line, lstrip_one_line.
  - apply strip_idempotent.
Qed.

Lemma split_line (name rest : string) :
  has_nl name = false ->
  Py.split Py.nl (name ++ LF ++ rest) = name :: Py.split Py.nl rest.
Proof.
  induction name as [|c name IH]; cbn; [reflexivity|].
  intros H. apply orb_false_iff in H as [Hc Hname].
  rewrite Hc. cbn in IH. now rewrite IH.
Qed.

(** Round trip: from an output that lists file names one per line, as
    [git format-patch] prints them, [format_patch] gives back exactly
    those names, in order. *)
Theorem format_patch_reads_names (names : list string) :
  forallb printable names = true ->
  format_patch_filenames (print_lines names) = names.
Proof.
  unfold format_patch_filenames.
  induction names as [|name names IH]; cbn [forallb print_lines];
    [reflexivity|].
  intros H. apply andb_true_iff in H as [Hname Hnames].
  unfold printable in Hname.
  apply andb_true_iff in Hname as [Hname Hstrip].
  apply andb_true_iff in Hname as [Htruthy Hline].
  apply negb_true_iff in Hline. apply String.eqb_eq in Hstrip.
  rewrite split_line by assumption.
  cbn [filter]. rewrite Htruthy. cbn [map].
  now rewrite Hstrip, IH.
Qed.

(** [format_patch] returns the empty list exactly when the output holds
    nothing but line feeds. *)
Theorem format_patch_empty_result (stdout : string) :
  format_patch_filenames stdout = [] <-> only_nl stdout = true.
Proof.
  unfold format_patch_filenames.
  induction stdout as [|c s IH]; cbn [Py.split only_nl].
  - split; reflexivity.
  - destruct (Ascii.eqb c Py.nl); cbn [filter Py.truthy andb].
    + exact IH.
    + pose proof (split_not_nil Py.nl s) as Hnil.
      destruct (Py.split Py.nl s); [contradiction|].
      cbn. split; discriminate.
Qed.

(** The two names of the example, printed and read back. *)
Lemma format_patch_reads_names_witness :
  format_patch_filenames (print_lines ["0001-a.patch"; "0002-b.patch"])
  = ["0001-a.patch"; "0002-b.patch"].
Proof.
  exact (format_patch_reads_names ["0001-a.patch"; "0002-b.patch"] eq_refl).
Defined.

(** ** The numbers log writes into its tokens *)

Lemma to_int_not_nil (n : Z) :
  Z.to_int n <> Decimal.Pos Nil /\ Z.to_int n <> Decimal.Neg Nil.
Proof.
  destruct n as [|p|p]; cbn; split; intros H; try discriminate H;
    injection H as H; now apply (Unsigned.to_uint_nonnil p).
Qed.

(** ["%d"] loses nothing: different integers are written differently. *)
Lemma format_d_injective (n m : Z) : Py.format_d n = Py.format_d m -> n = m.
Proof.
  unfold Py.format_d. intros H.
  apply (f_equal NilZero.int_of_string) in H.
  rewrite !NilZero.isi in H by apply to_int_not_nil.
  injection H as H.
  now rewrite <- (DecimalZ.of_to n), <- (DecimalZ.of_to m), H.
Qed.

(** Different values of [count], and different values of [skip], give
    different argument vectors, the other arguments being the same: the
    number asked for is the number git is given. *)
Theorem log_numbers_faithful
    (cmd_arg : option string) (pretty : option string) (other : option Z)
    (n m : Z) :
  n <> m ->
  log_args cmd_arg (Some n) pretty other
  <> log_args cmd_arg (Some m) pretty other
  /\ log_args cmd_arg other pretty (Some n)
     <> log_args cmd_arg other pretty (Some m).
Proof.
  intros Hnm.
  rewrite !(argv_layout (CallLog _ _ _ _) : log_args _ _ _ _ = _).
  unfold layout. cbn [positionals_first flags positionals subcommand].
  split; intros H; injection H as H; apply app_inv_tail in H;
    apply app_inv_head in H.
  - apply (f_equal (@hd string EmptyString)) in H. cbn in H.
    injection H as H. now apply Hnm, format_d_injective.
  - apply app_inv_head in H. cbn in H.
    injection H as H. now apply Hnm, format_d_injective.
Qed.

(** A negative [count] is written with its sign after the dash: git is
    handed a token that starts with two dashes, not a count. *)
Theorem log_negative_count
    (cmd_arg : option string) (pretty : option string) (skip : option Z)
    (n : Z) :
  (n < 0)%Z ->
  In ("--" ++ Py.format_d (- n))%string
     (log_args cmd_arg (Some n) pretty skip).
Proof.
  intros Hn.
  rewrite (argv_layout (CallLog _ _ _ _) : log_args _ _ _ _ = _).
  unfold layout. cbn [positionals_first flags positionals subcommand].
  right; right. rewrite !in_app_iff. left; right; left.
  destruct n as [|p|p]; try lia. left. reflexivity.
Qed.

(** Counts 3 and 4. *)
Lemma log_numbers_faithful_witness :
  log_args None (Some 3%Z) None None <> log_args None (Some 4%Z) None None
  /\ log_args None None None (Some 3%Z)
     <> log_args None None None (Some 4%Z).
Proof.
  refine (log_numbers_faithful None None None 3%Z 4%Z _). discriminate.
Defined.

(** [count=-3] gives the token [--3]. *)
Lemma log_negative_count_witness :
  In "--3" (log_args None (Some (-3)%Z) None None).
Proof.
  refine (log_negative_count None None None (-3)%Z _). reflexivity.
Defined.
